(** * Map processor: affine solver, GDAL pipeline and HTTP handlers

    A shallow embedding of [services/map-processor/main.py].

    - A number is the rational [Q] a JSON literal denotes.  What Python and
      numpy make of it (an int or a float64, rounding, overflow to inf, an
      object array for an integer past 64 bits) is not modelled, so nothing
      below speaks of the values of the coefficients beyond small concrete
      inputs; the statements are about lengths, keys, exceptions, log
      records, commands and responses.
    - A function that can raise returns an [outcome]; a function with effects
      (logging, external processes) runs in the state-and-exception monad
      [Py] over a chronological list of [event]s.
    - [numpy.linalg.lstsq], [subprocess.check_call] and the part of Flask the
      handlers rely on are external: they are modelled from their documented
      behaviour and marked as such.  For [lstsq] that is its dimension check
      and an exact-arithmetic stand-in for its floating-point kernel. *)

From Stdlib Require Import List String ZArith QArith Bool Lia.
Import ListNotations.
Open Scope string_scope.
Open Scope Q_scope.
Open Scope list_scope.

(** ** Data *)

(** A pixel point [[x, y]] or a geo point [[lat, lon]]: a Python list of
    numbers, of any length. *)
Definition point := list Q.

(** A ground-control point, [{"pixel": [x, y], "geo": [lat, lon]}]. *)
Record GCP := mkGCP { pixel : point; geo : point }.

(** A Python dict with string keys, in insertion order. *)
Definition dict := list (string * Q).

(** An element of an argument vector: a string literal, a path, or [str(x)]
    of a number [x], kept symbolic. *)
Inductive token :=
| Lit (s : string)
| StrOf (x : Q).

(** A parsed JSON document, as the Python object [json.loads] gives. *)
#[warnings="-register-all"]
Inductive json :=
| JNull
| JBool (b : bool)
| JNum (x : Q)
| JStr (s : string)
| JArr (items : list json)
| JObj (fields : list (string * json)).

(** ** Exceptions, events and the [Py] monad *)

Inductive exn :=
| ValueError (msg : string)
| IndexError (msg : string)
| KeyError (key : string)
| AttributeError (msg : string)
| LinAlgError (msg : string)
| CalledProcessError (returncode : Z) (cmd : list token)
| TypeError (msg : string)
| OSError (msg : string)
| BadRequest
| UnsupportedMediaType.

Definition is_LinAlgError (e : exn) : bool :=
  match e with LinAlgError _ => true | _ => false end.

Definition is_CalledProcessError (e : exn) : bool :=
  match e with CalledProcessError _ _ => true | _ => false end.

(** [werkzeug.exceptions.HTTPException]: the exceptions Flask turns into a
    response of their own status, [http_code]. *)
Definition is_HTTPException (e : exn) : bool :=
  match e with BadRequest | UnsupportedMediaType => true | _ => false end.

Definition http_code (e : exn) : Z :=
  match e with UnsupportedMediaType => 415 | _ => 400 end.

Inductive outcome (A : Type) :=
| Ret (a : A)
| Raise (e : exn).
Arguments Ret {A} a.
Arguments Raise {A} e.

Inductive level := INFO | ERROR.

(** The object interpolated in an f-string passed to the logger. *)
Inductive logarg :=
| ArgExn (e : exn)
| ArgCmd (cmd : list token)
| ArgJson (v : json).

(** What a run leaves behind, in order: log records, external commands
    handed to [subprocess.check_call], and (ghost) entries of the two
    functions whose invocation the specification talks about. *)
Inductive event :=
| Log (lvl : level) (prefix : string) (arg : logarg)
| Invoke (cmd : list token)
| CallSolveAffine (pixel_points gps_points : list point)
| CallRunGdalPipeline (input_path output_dir : string) (gcps : list GCP).

Definition trace := list event.

Definition Py (A : Type) := trace -> outcome A * trace.

Definition ret {A} (a : A) : Py A := fun s => (Ret a, s).

Definition raise {A} (e : exn) : Py A := fun s => (Raise e, s).

Definition bind {A B} (m : Py A) (k : A -> Py B) : Py B :=
  fun s => match m s with
           | (Ret a, s') => k a s'
           | (Raise e, s') => (Raise e, s')
           end.

Definition emit (ev : event) : Py unit := fun s => (Ret tt, s ++ [ev]).

Definition lift {A} (o : outcome A) : Py A := fun s => (o, s).

(** [try: body except Exception as e: handler e]. *)
Definition try_except {A} (body : Py A) (handler : exn -> Py A) : Py A :=
  fun s => match body s with
           | (Ret a, s') => (Ret a, s')
           | (Raise e, s') => handler e s'
           end.

Definition logger (lvl : level) (prefix : string) (arg : logarg) : Py unit :=
  emit (Log lvl prefix arg).

Declare Scope py_scope.
Delimit Scope py_scope with py.
Notation "x <- m ;; k" := (bind m (fun x => k))
  (at level 61, m at next level, right associativity) : py_scope.
Notation "m ;;; k" := (bind m (fun _ => k))
  (at level 61, right associativity) : py_scope.

(** Pure code that can raise. *)
Definition obind {A B} (o : outcome A) (k : A -> outcome B) : outcome B :=
  match o with
  | Ret a => k a
  | Raise e => Raise e
  end.

Declare Scope outcome_scope.
Delimit Scope outcome_scope with out.
Notation "x <~ o ;; k" := (obind o (fun x => k))
  (at level 61, o at next level, right associativity) : outcome_scope.

(** [l[i]] on a Python list, for [i >= 0]. *)
Definition getitem (l : point) (i : nat) : outcome Q :=
  match nth_error l i with
  | Some x => Ret x
  | None => Raise (IndexError "list index out of range")
  end.

(** A list comprehension [[f p for p in l]] whose element expression can
    raise: elements are evaluated in order and the first exception wins. *)
Fixpoint comprehension {A B} (f : A -> outcome B) (l : list A)
  : outcome (list B) :=
  match l with
  | [] => Ret []
  | a :: rest =>
      (b <~ f a ;; bs <~ comprehension f rest ;; Ret (b :: bs))%out
  end.

(** ** numpy.linalg.lstsq on an n-by-3 design matrix

    Modelled from numpy's documentation: [lstsq(a, b)] first compares the
    row counts of [a] and [b] and raises [LinAlgError] when they differ; it
    then hands the system to a floating-point SVD solver that ignores
    singular values under the [rcond] cut-off, so that a rank-deficient
    matrix is not an error.

    The solver itself is not modelled.  [pinv_solve] stands in for it: the
    least-squares solution of least norm in exact arithmetic, the
    pseudo-inverse applied to [b], computed from the characteristic
    polynomial of the Gram matrix [aT a].  It decides the rank exactly,
    where numpy decides it up to [rcond]; it knows no rounding, no
    [TypeError] for an object array and no SVD that fails to converge.  The
    statements below rely on the dimension check and on the exceptions of
    the code around the call; the stand-in is evaluated at small concrete
    inputs only. *)

Definition vec3 := (Q * Q * Q)%type.

Definition sumQ (l : list Q) : Q := fold_right Qplus 0 l.

(** The symmetric Gram matrix [aT a], by its upper triangle. *)
Record sym3 := mkSym3 { m11 : Q; m12 : Q; m13 : Q; m22 : Q; m23 : Q; m33 : Q }.

Definition gram (a : list vec3) : sym3 :=
  mkSym3 (sumQ (map (fun '(x, y, z) => x * x) a))
         (sumQ (map (fun '(x, y, z) => x * y) a))
         (sumQ (map (fun '(x, y, z) => x * z) a))
         (sumQ (map (fun '(x, y, z) => y * y) a))
         (sumQ (map (fun '(x, y, z) => y * z) a))
         (sumQ (map (fun '(x, y, z) => z * z) a)).

(** [aT b]. *)
Definition moment (a : list vec3) (b : list Q) : vec3 :=
  (sumQ (map (fun '((x, y, z), t) => x * t) (combine a b)),
   sumQ (map (fun '((x, y, z), t) => y * t) (combine a b)),
   sumQ (map (fun '((x, y, z), t) => z * t) (combine a b))).

Definition mulv (m : sym3) (v : vec3) : vec3 :=
  let '(v1, v2, v3) := v in
  (m11 m * v1 + m12 m * v2 + m13 m * v3,
   m12 m * v1 + m22 m * v2 + m23 m * v3,
   m13 m * v1 + m23 m * v2 + m33 m * v3).

Definition adjugate (m : sym3) : sym3 :=
  mkSym3 (m22 m * m33 m - m23 m * m23 m)
         (m13 m * m23 m - m12 m * m33 m)
         (m12 m * m23 m - m13 m * m22 m)
         (m11 m * m33 m - m13 m * m13 m)
         (m12 m * m13 m - m11 m * m23 m)
         (m11 m * m22 m - m12 m * m12 m).

(** Coefficients of the characteristic polynomial
    [t^3 - trace t^2 + minors t - det]. *)
Definition trace3 (m : sym3) : Q := m11 m + m22 m + m33 m.

Definition minors3 (m : sym3) : Q :=
  m11 (adjugate m) + m22 (adjugate m) + m33 (adjugate m).

Definition det3 (m : sym3) : Q :=
  m11 m * m11 (adjugate m) + m12 m * m12 (adjugate m)
  + m13 m * m13 (adjugate m).

Definition scale (k : Q) (v : vec3) : vec3 :=
  let '(v1, v2, v3) := v in (k * v1, k * v2, k * v3).

Definition subv (u v : vec3) : vec3 :=
  let '(u1, u2, u3) := u in
  let '(v1, v2, v3) := v in (u1 - v1, u2 - v2, u3 - v3).

(** The pseudo-inverse of [aT a] applied to [aT b], by the rank of the Gram
    matrix [m]: 3, 2, 1 or 0. *)
Definition pinv_apply (m : sym3) (c : vec3) : vec3 :=
  if negb (Qeq_bool (det3 m) 0) then
    scale (/ det3 m) (mulv (adjugate m) c)
  else if negb (Qeq_bool (minors3 m) 0) then
    scale (/ minors3 m) (subv (scale (trace3 m) c) (mulv m c))
  else if negb (Qeq_bool (trace3 m) 0) then
    scale (/ trace3 m) c
  else (0, 0, 0).

Definition pinv_solve (a : list vec3) (b : list Q) : vec3 :=
  pinv_apply (gram a) (moment a b).

Definition lstsq (a : list vec3) (b : list Q) : outcome vec3 :=
  if Nat.eqb (List.length a) (List.length b) then Ret (pinv_solve a b)
  else Raise (LinAlgError "Incompatible dimensions").

(** ** solve_affine *)

(** The body of the [try] block. *)
Definition solve_affine_try (pixel_points gps_points : list point)
  : outcome dict :=
  if (List.length pixel_points <? 3)%nat || (List.length gps_points <? 3)%nat then
    Raise (ValueError "At least 3 points required")
  else
    (P <~ comprehension
            (fun p => x <~ getitem p 0 ;; y <~ getitem p 1 ;; Ret (x, y, 1))
            pixel_points ;;
     Target_Lon <~ comprehension (fun p => getitem p 1) gps_points ;;
     Target_Lat <~ comprehension (fun p => getitem p 0) gps_points ;;
     coeffs_lon <~ lstsq P Target_Lon ;;
     coeffs_lat <~ lstsq P Target_Lat ;;
     let '(cA, cB, cC) := coeffs_lon in
     let '(cD, cE, cF) := coeffs_lat in
     Ret [("A", cA); ("B", cB); ("C", cC);
          ("D", cD); ("E", cE); ("F", cF)])%out.

Definition solve_affine (pixel_points gps_points : list point)
  : Py (option dict) :=
  (emit (CallSolveAffine pixel_points gps_points) ;;;
   try_except
     (d <- lift (solve_affine_try pixel_points gps_points) ;; ret (Some d))
     (fun e =>
        if is_LinAlgError e then
          logger ERROR "Linear Algebra Error: " (ArgExn e) ;;; ret None
        else
          logger ERROR "Error solving affine: " (ArgExn e) ;;; ret None))%py.

Definition keys (d : dict) : list string := map fst d.

(** ** run_gdal_pipeline *)

(** How an external command ends: with an exit status, or without having
    started (the executable is missing, say). *)
Inductive proc_result :=
| Exited (returncode : Z)
| NotStarted (msg : string).

(** The environment decides how each command ends.  One run of the pipeline
    hands it three commands with three different program names, so a
    function of the command covers every behaviour of a run. *)
Definition environment := list token -> proc_result.

(** [subprocess.check_call], modelled from the Python documentation: run the
    command and wait; status 0 returns, any other status raises
    [CalledProcessError] carrying the status and the command. *)
Definition check_call (env : environment) (cmd : list token) : Py unit :=
  (emit (Invoke cmd) ;;;
   match env cmd with
   | Exited code =>
       if Z.eqb code 0 then ret tt else raise (CalledProcessError code cmd)
   | NotStarted msg => raise (OSError msg)
   end)%py.

Definition startswith (s pre : string) : bool := String.prefix pre s.

Definition endswith (s suf : string) : bool :=
  let n := String.length s in
  let k := String.length suf in
  (k <=? n)%nat && String.eqb (String.substring (n - k) k s) suf.

(** [os.path.join(a, b)] of [posixpath]. *)
Definition path_join (a b : string) : string :=
  if startswith b "/" then b
  else if String.eqb a "" || endswith a "/" then (a ++ b)%string
  else (a ++ "/" ++ b)%string.

(** The loop [for gcp in gcps: cmd_translate.extend([...])]. *)
Fixpoint extend_gcps (cmd_translate : list token) (gcps : list GCP)
  : outcome (list token) :=
  match gcps with
  | [] => Ret cmd_translate
  | gcp :: rest =>
      (px <~ getitem (pixel gcp) 0 ;;
       py <~ getitem (pixel gcp) 1 ;;
       lon <~ getitem (geo gcp) 1 ;;
       lat <~ getitem (geo gcp) 0 ;;
       extend_gcps
         (cmd_translate ++ [Lit "-gcp"; StrOf px; StrOf py; StrOf lon; StrOf lat])
         rest)%out
  end.

Definition cmd_warp (vrt_path warped_tif : string) : list token :=
  [Lit "gdalwarp"; Lit "-t_srs"; Lit "EPSG:3857"; Lit "-r"; Lit "lanczos";
   Lit "-co"; Lit "COMPRESS=DEFLATE"; Lit "-co"; Lit "TILED=YES";
   Lit "-dstalpha"; Lit vrt_path; Lit warped_tif].

Definition cmd_tiles (warped_tif tiles_dir : string) : list token :=
  [Lit "gdal2tiles.py"; Lit "--profile=mercator"; Lit "-z"; Lit "10-18";
   Lit "--processes=4"; Lit warped_tif; Lit tiles_dir].

Definition run_gdal_pipeline (env : environment)
    (input_path output_dir : string) (gcps : list GCP) : Py string :=
  (emit (CallRunGdalPipeline input_path output_dir gcps) ;;;
   try_except
     (let vrt_path := path_join output_dir "temp.vrt" in
      cmd_translate <-
        lift (extend_gcps [Lit "gdal_translate"; Lit "-of"; Lit "VRT"] gcps) ;;
      let cmd_translate := cmd_translate ++ [Lit input_path; Lit vrt_path] in
      logger INFO "Running gdal_translate: " (ArgCmd cmd_translate) ;;;
      check_call env cmd_translate ;;;
      let warped_tif := path_join output_dir "warped.tif" in
      logger INFO "Running gdalwarp: " (ArgCmd (cmd_warp vrt_path warped_tif)) ;;;
      check_call env (cmd_warp vrt_path warped_tif) ;;;
      let tiles_dir := path_join output_dir "tiles" in
      logger INFO "Running gdal2tiles: "
             (ArgCmd (cmd_tiles warped_tif tiles_dir)) ;;;
      check_call env (cmd_tiles warped_tif tiles_dir) ;;;
      ret tiles_dir)
     (fun e =>
        if is_CalledProcessError e then
          logger ERROR "GDAL subprocess failed: " (ArgExn e) ;;; raise e
        else raise e))%py.

(** ** HTTP handlers *)

(** The body of a response. *)
Inductive body :=
| Text (s : string)
| Failed (e : exn)                       (* f"Failed: {e}" *)
| Success (affine_matrix : option dict)  (* {"status": "success", ...} *)
| ErrorPage.                             (* Flask's page for an exception *)

Definition response := (body * Z)%type.

Definition status (r : response) : Z := snd r.

(** The JSON object of a request to [/verify-pipeline], with its three
    fields typed as the handler's docstring gives them; [None] is a missing
    key, for which [data.get] yields Python's [None].  A body that is not
    an object, and a GCP without its ["pixel"] or ["geo"] key, are outside
    this type: the code answers them 500 (an AttributeError before the
    [try], a KeyError inside it), and no statement below is about them. *)
Record VerifyRequest := mkVerifyRequest {
  image_path : option string;
  output_dir : option string;
  gcps : option (list GCP)
}.

(** Truth values of [str] and [list] objects. *)
Definition str_truthy (s : string) : bool := negb (String.eqb s "").

Definition list_truthy {A} (l : list A) : bool :=
  match l with [] => false | _ => true end.

Definition all (l : list bool) : bool := forallb (fun b => b) l.

Definition verify_pipeline (env : environment) (data : VerifyRequest)
  : Py response :=
  match image_path data, output_dir data, gcps data with
  | Some input_path, Some output_dir, Some gcps =>
      if negb (all [str_truthy input_path; str_truthy output_dir;
                    list_truthy gcps])
      then ret (Text "Missing arguments", 400%Z)
      else
        (try_except
           (let pixel_points := map pixel gcps in
            let gps_points := map geo gcps in
            affine_matrix <- solve_affine pixel_points gps_points ;;
            run_gdal_pipeline env input_path output_dir gcps ;;;
            ret (Success affine_matrix, 200%Z))
           (fun e =>
              logger ERROR "Verification failed: " (ArgExn e) ;;;
              ret (Failed e, 500%Z)))%py
  | _, _, _ => ret (Text "Missing arguments", 400%Z)
  end.

(** The body of a POST, as [request.get_json()] sees it: a JSON
    Content-Type whose body does not parse, a JSON Content-Type whose body
    parses to a document, or another Content-Type. *)
Inductive http_body :=
| NotJson
| Json (v : json)
| NotJsonMimetype.

(** [request.get_json()], modelled from Flask's documentation (2.1 and
    later): a Content-Type that is not JSON makes it raise
    [UnsupportedMediaType] without reading the body, a body that does not
    parse makes it raise [BadRequest]. *)
Definition get_json (b : http_body) : Py json :=
  match b with
  | NotJson => raise BadRequest
  | Json v => ret v
  | NotJsonMimetype => raise UnsupportedMediaType
  end.

(** Truth value of a parsed JSON document. *)
Definition truthy (v : json) : bool :=
  match v with
  | JNull => false
  | JBool b => b
  | JNum x => negb (Qeq_bool x 0)
  | JStr s => str_truthy s
  | JArr items => list_truthy items
  | JObj fields => list_truthy fields
  end.

Fixpoint assoc (k : string) (fields : list (string * json)) : option json :=
  match fields with
  | [] => None
  | (k', v) :: rest => if String.eqb k k' then Some v else assoc k rest
  end.

(** [event.get(k)]: only a dict has the method. *)
Definition dict_get (v : json) (k : string) : outcome json :=
  match v with
  | JObj fields =>
      match assoc k fields with Some x => Ret x | None => Ret JNull end
  | _ => Raise (AttributeError "get")
  end.

(** [event[k]] for a string [k]: a dict looks the key up, the other types
    do not take a string subscript. *)
Definition dict_item (v : json) (k : string) : outcome json :=
  match v with
  | JObj fields =>
      match assoc k fields with Some x => Ret x | None => Raise (KeyError k) end
  | _ => Raise (TypeError "subscript")
  end.

(** [v == s] for a string [s]. *)
Definition eq_str (v : json) (s : string) : bool :=
  match v with JStr t => String.eqb t s | _ => false end.

(** [name.endswith(suf)]: only a [str] has the method. *)
Definition json_endswith (v : json) (suf : string) : outcome bool :=
  match v with
  | JStr s => Ret (endswith s suf)
  | _ => Raise (AttributeError "endswith")
  end.

Section Index.

(** [UPLOAD_BUCKET], read from the environment when the module is loaded. *)
Variable UPLOAD_BUCKET : string.

Definition index (b : http_body) : Py response :=
  (event <- get_json b ;;
   if negb (truthy event) then ret (Text "Bad Request: no JSON", 400%Z)
   else
     logger INFO "Received event: " (ArgJson event) ;;;
     kind <- lift (dict_get event "kind") ;;
     (if eq_str kind "storage#object" then
        bucket <- lift (dict_item event "bucket") ;;
        name <- lift (dict_item event "name") ;;
        if eq_str bucket UPLOAD_BUCKET then
          is_meta <- lift (json_endswith name ".json") ;;
          ret tt
        else ret tt
      else ret tt) ;;;
     ret (Text "OK", 200%Z))%py.

End Index.

(** What Flask sends for a handler's run, modelled from its documentation:
    the handler's own response; the response of an [HTTPException] it let
    through; status 500 for any other exception. *)
Definition flask_dispatch (h : Py response) (s : trace) : response * trace :=
  match h s with
  | (Ret r, s') => (r, s')
  | (Raise e, s') =>
      if is_HTTPException e then (ErrorPage, http_code e, s')
      else (ErrorPage, 500%Z, s')
  end.

(** ** Vocabulary of the statements *)

Definition six_keys : list string := ["A"; "B"; "C"; "D"; "E"; "F"].

(** The coordinates the code reads from a point, [p[0]] and [p[1]]. *)
Definition fst_coord (p : point) : Q := nth 0 p 0.

Definition snd_coord (p : point) : Q := nth 1 p 0.

Definition two_coords (p : point) : Prop := (2 <= List.length p)%nat.

(** The design matrix [P], rows [[x, y, 1]]. *)
Definition design (pixel_points : list point) : list vec3 :=
  map (fun p => (fst_coord p, snd_coord p, 1)) pixel_points.

(** All the points lie on one line [a x + b y + c = 0]. *)
Definition collinear (pts : list point) : Prop :=
  exists a b c, ~ (a == 0 /\ b == 0) /\
    Forall (fun p => a * fst_coord p + b * snd_coord p + c == 0) pts.

(** A GCP whose two points have the two coordinates the code reads. *)
Definition well_formed (g : GCP) : Prop :=
  two_coords (pixel g) /\ two_coords (geo g).

(** The five arguments one GCP contributes. *)
Definition gcp_args (g : GCP) : list token :=
  [Lit "-gcp"; StrOf (fst_coord (pixel g)); StrOf (snd_coord (pixel g));
   StrOf (snd_coord (geo g)); StrOf (fst_coord (geo g))].

(** The three commands of a run. *)
Definition embed_command (input_path output_dir : string) (gcps : list GCP)
  : list token :=
  [Lit "gdal_translate"; Lit "-of"; Lit "VRT"] ++ flat_map gcp_args gcps
  ++ [Lit input_path; Lit (path_join output_dir "temp.vrt")].

Definition warp_command (output_dir : string) : list token :=
  cmd_warp (path_join output_dir "temp.vrt") (path_join output_dir "warped.tif").

Definition tile_command (output_dir : string) : list token :=
  cmd_tiles (path_join output_dir "warped.tif") (path_join output_dir "tiles").

(** The external commands of a trace, in order. *)
Definition invoked (s : trace) : list (list token) :=
  flat_map (fun ev => match ev with Invoke cmd => [cmd] | _ => [] end) s.

(** An event the trigger handler answers with ["OK"]: not a storage object,
    or one that carries a bucket and a name, the name being a string when
    the bucket is the upload bucket. *)
Definition answered (upload_bucket : string) (fields : list (string * json))
  : Prop :=
  (forall kind, assoc "kind" fields = Some kind ->
                eq_str kind "storage#object" = false)
  \/ exists bucket name,
       assoc "bucket" fields = Some bucket /\ assoc "name" fields = Some name /\
       (eq_str bucket upload_bucket = false \/ exists n, name = JStr n).

(** The result of the solver as its caller sees it. *)
Definition solver_result (pixel_points gps_points : list point) : option dict :=
  match solve_affine_try pixel_points gps_points with
  | Ret d => Some d
  | Raise _ => None
  end.

(** The request of [verify_map_pipeline.py]. *)
Definition IMAGE_PATH : string := "/tmp/test_map.jpg".

Definition OUTPUT_DIR : string := "/tmp/output".

Definition harness_gcps : list GCP :=
  [mkGCP [0; 0] [59.4; 18];
   mkGCP [1000; 0] [59.4; 18.2];
   mkGCP [0; 1000] [59.2; 18]].


(** The default of [UPLOAD_BUCKET]. *)
Definition DEFAULT_UPLOAD_BUCKET : string := "antigravity-maps-upload".

(** The exception of an index past the end of a list. *)
Definition index_error : exn := IndexError "list index out of range".

(** Every command of the trace comes right after the INFO record that
    prints it. *)
Inductive announced : trace -> Prop :=
| announced_nil : announced []
| announced_run label cmd s :
    announced s -> announced (Log INFO label (ArgCmd cmd) :: Invoke cmd :: s)
| announced_other ev s :
    (forall cmd, ev <> Invoke cmd) -> announced s -> announced (ev :: s).

(** * Properties *)

(** ** Comprehensions and indexing *)

Lemma getitem_ret l i x : getitem l i = Ret x -> x = nth i l 0.
Proof.
  unfold getitem. destruct (nth_error l i) as [y|] eqn:E; [|discriminate].
  intros H. injection H as <-. symmetry. apply nth_error_nth. assumption.
Qed.

Lemma getitem_ok l i : (i < List.length l)%nat -> getitem l i = Ret (nth i l 0).
Proof.
  intros H. unfold getitem.
  destruct (nth_error l i) as [y|] eqn:E.
  - f_equal. symmetry. apply nth_error_nth. assumption.
  - apply nth_error_None in E. lia.
Qed.

Lemma comprehension_length {A B} (f : A -> outcome B) l r :
  comprehension f l = Ret r -> List.length r = List.length l.
Proof.
  revert r. induction l as [|a l IH]; intros r H; cbn in H.
  - injection H as <-. reflexivity.
  - destruct (f a) as [b|e]; cbn in H; [|discriminate].
    destruct (comprehension f l) as [bs|e]; cbn in H; [|discriminate].
    injection H as <-. cbn. f_equal. apply IH. reflexivity.
Qed.

Lemma comprehension_total {A B} (f : A -> outcome B) (g : A -> B) l :
  Forall (fun a => f a = Ret (g a)) l -> comprehension f l = Ret (map g l).
Proof.
  induction 1 as [|a l Ha _ IH]; cbn; [reflexivity|].
  rewrite Ha. cbn. rewrite IH. reflexivity.
Qed.

Lemma design_comprehension pix :
  Forall two_coords pix ->
  comprehension
    (fun p => x <~ getitem p 0 ;; y <~ getitem p 1 ;; Ret (x, y, 1))%out pix
  = Ret (design pix).
Proof.
  intros H. apply comprehension_total.
  eapply Forall_impl; [|exact H]. intros p Hp. unfold two_coords in Hp.
  rewrite !getitem_ok by lia. reflexivity.
Qed.

Lemma target_comprehension i gps :
  (i < 2)%nat -> Forall two_coords gps ->
  comprehension (fun p => getitem p i) gps = Ret (map (fun p => nth i p 0) gps).
Proof.
  intros Hi H. apply comprehension_total.
  eapply Forall_impl; [|exact H]. intros p Hp. unfold two_coords in Hp.
  apply getitem_ok. lia.
Qed.

(** ** solve_affine *)

(** What a call of [solve_affine] does, by how its [try] block ends. *)
Lemma solve_affine_run pix gps s :
  solve_affine pix gps s =
  match solve_affine_try pix gps with
  | Ret d => (Ret (Some d), s ++ [CallSolveAffine pix gps])
  | Raise e =>
      (Ret None,
       (s ++ [CallSolveAffine pix gps]) ++
       [Log ERROR (if is_LinAlgError e then "Linear Algebra Error: "
                   else "Error solving affine: ") (ArgExn e)])
  end.
Proof.
  unfold solve_affine, bind, emit, try_except, lift, ret, logger, emit.
  destruct (solve_affine_try pix gps) as [d|e]; [reflexivity|].
  destruct (is_LinAlgError e); reflexivity.
Qed.

Lemma solve_affine_try_keys pix gps d :
  solve_affine_try pix gps = Ret d -> keys d = six_keys.
Proof.
  unfold solve_affine_try.
  destruct (_ || _); [discriminate|].
  destruct (comprehension _ pix) as [P|]; cbn [obind]; [|discriminate].
  destruct (comprehension (fun p => getitem p 1) gps) as [TLon|];
    cbn [obind]; [|discriminate].
  destruct (comprehension (fun p => getitem p 0) gps) as [TLat|];
    cbn [obind]; [|discriminate].
  destruct (lstsq P TLon) as [[[cA cB] cC]|]; cbn [obind]; [|discriminate].
  destruct (lstsq P TLat) as [[[cD cE] cF]|]; cbn [obind]; [|discriminate].
  intros H. injection H as <-. reflexivity.
Qed.

Lemma solve_affine_try_insufficient pix gps :
  (List.length pix < 3)%nat \/ (List.length gps < 3)%nat \/
  List.length pix <> List.length gps ->
  exists e, solve_affine_try pix gps = Raise e.
Proof.
  intros H. unfold solve_affine_try.
  destruct (_ || _) eqn:Hlen; [eauto|].
  apply orb_false_elim in Hlen as [H1 H2].
  apply Nat.ltb_ge in H1, H2.
  destruct H as [H|[H|H]]; [lia|lia|].
  destruct (comprehension _ pix) as [P|] eqn:EP; cbn [obind]; [|eauto].
  destruct (comprehension (fun p => getitem p 1) gps) as [TLon|] eqn:ELon;
    cbn [obind]; [|eauto].
  destruct (comprehension (fun p => getitem p 0) gps) as [TLat|] eqn:ELat;
    cbn [obind]; [|eauto].
  apply comprehension_length in EP, ELon.
  unfold lstsq at 1.
  destruct (Nat.eqb _ _) eqn:Heq;
    [apply Nat.eqb_eq in Heq; unfold vec3 in *; congruence|].
  cbn [obind]. eauto.
Qed.

Lemma solve_affine_try_too_few pix gps :
  (List.length pix < 3)%nat \/ (List.length gps < 3)%nat ->
  solve_affine_try pix gps = Raise (ValueError "At least 3 points required").
Proof.
  intros H. unfold solve_affine_try.
  destruct (_ || _) eqn:Hlen; [reflexivity|].
  apply orb_false_elim in Hlen as [H1 H2].
  apply Nat.ltb_ge in H1, H2. lia.
Qed.

(** C10. [solve_affine] never raises: on every pair of lists it returns
    either [None] or a dict whose keys are exactly A, B, C, D, E, F; every
    exception of its [try] block is caught and turned into [None]. *)
Theorem solve_affine_total pix gps s :
  exists r s', solve_affine pix gps s = (Ret r, s') /\
    (r = None \/ exists d, r = Some d /\ keys d = six_keys).
Proof.
  rewrite solve_affine_run.
  destruct (solve_affine_try pix gps) as [d|e] eqn:E.
  - eexists _, _. split; [reflexivity|]. right. exists d. split; [reflexivity|].
    eapply solve_affine_try_keys; eassumption.
  - eexists _, _. split; [reflexivity|]. now left.
Qed.

(** C7. With fewer than 3 points in either list, or lists of different
    lengths, [solve_affine] returns [None], no coefficients; with fewer than
    3 points the error behind it is the ValueError of the length check. *)
Theorem solve_affine_insufficient_points pix gps s :
  (List.length pix < 3)%nat \/ (List.length gps < 3)%nat \/
  List.length pix <> List.length gps ->
  fst (solve_affine pix gps s) = Ret None /\
  ((List.length pix < 3)%nat \/ (List.length gps < 3)%nat ->
   solve_affine_try pix gps = Raise (ValueError "At least 3 points required")).
Proof.
  intros H. split.
  - apply solve_affine_try_insufficient in H as [e He].
    rewrite solve_affine_run, He. reflexivity.
  - apply solve_affine_try_too_few.
Qed.

Lemma solve_affine_insufficient_points_witness :
  fst (solve_affine [[0; 0]; [1000; 0]]
                    [[59.4; 18]; [59.4; 18.2]; [59.2; 18]] []) = Ret None.
Proof.
  apply (solve_affine_insufficient_points
           [[0; 0]; [1000; 0]] [[59.4; 18]; [59.4; 18.2]; [59.2; 18]] []).
  left. simpl. lia.
Defined.

(** C4, at the failing input: the three pixel points (0,0), (1,1), (2,2)
    lie on the line [x = y], yet [solve_affine] returns a coefficient set,
    not [None]: [lstsq] does not raise on a rank-deficient system and the
    rank it reports is discarded. *)
Lemma solve_affine_collinear_not_none :
  collinear [[0; 0]; [1; 1]; [2; 2]] /\
  fst (solve_affine [[0; 0]; [1; 1]; [2; 2]]
                    [[59; 18]; [59.1; 18.1]; [59.2; 18.2]] [])
  <> Ret None.
Proof.
  split.
  - exists 1, (- (1)), 0. split.
    + intros [H _]. discriminate.
    + repeat constructor; reflexivity.
  - vm_compute. discriminate.
Qed.

(** ** run_gdal_pipeline *)

Lemma invoked_app s1 s2 : invoked (s1 ++ s2) = invoked s1 ++ invoked s2.
Proof. apply flat_map_app. Qed.

Lemma extend_gcps_ret gcps : forall cmd r,
  extend_gcps cmd gcps = Ret r -> r = cmd ++ flat_map gcp_args gcps.
Proof.
  induction gcps as [|g gcps IH]; intros cmd r H; cbn [extend_gcps] in H.
  - injection H as <-. cbn. now rewrite app_nil_r.
  - destruct (getitem (pixel g) 0) as [a|] eqn:E1; cbn [obind] in H; [|discriminate].
    destruct (getitem (pixel g) 1) as [b|] eqn:E2; cbn [obind] in H; [|discriminate].
    destruct (getitem (geo g) 1) as [c|] eqn:E3; cbn [obind] in H; [|discriminate].
    destruct (getitem (geo g) 0) as [d|] eqn:E4; cbn [obind] in H; [|discriminate].
    apply IH in H. subst r.
    apply getitem_ret in E1, E2, E3, E4. subst.
    cbn [flat_map]. rewrite <- app_assoc. reflexivity.
Qed.

Lemma extend_gcps_ok gcps : forall cmd,
  Forall well_formed gcps ->
  extend_gcps cmd gcps = Ret (cmd ++ flat_map gcp_args gcps).
Proof.
  induction gcps as [|g gcps IH]; intros cmd H; cbn [extend_gcps].
  - cbn. now rewrite app_nil_r.
  - inversion H as [|? ? [Hp Hg] Hrest]; subst. unfold two_coords in Hp, Hg.
    rewrite !getitem_ok by lia. cbn [obind].
    rewrite IH by assumption. cbn [flat_map]. rewrite <- app_assoc. reflexivity.
Qed.

Ltac run_pipeline :=
  unfold run_gdal_pipeline, bind, try_except, emit, lift, logger, emit,
    check_call, bind, emit, raise, ret.

Ltac trace_invoked :=
  rewrite ?invoked_app; cbn [invoked flat_map app]; rewrite ?app_nil_r,
    <- ?app_assoc; cbn [app].

(** Which commands a run hands to the environment: a prefix of the three
    stages, each stage reached only after the one before it exited with 0. *)
Lemma run_gdal_pipeline_invocations env input_path output_dir gcps s :
  let c1 := embed_command input_path output_dir gcps in
  let c2 := warp_command output_dir in
  let c3 := tile_command output_dir in
  exists k,
    invoked (snd (run_gdal_pipeline env input_path output_dir gcps s))
    = invoked s ++ firstn k [c1; c2; c3] /\
    ((2 <= k)%nat -> env c1 = Exited 0) /\
    ((3 <= k)%nat -> env c2 = Exited 0).
Proof.
  intros c1 c2 c3. run_pipeline.
  destruct (extend_gcps _ gcps) as [cmd|e] eqn:E.
  2:{ exists 0%nat. destruct (is_CalledProcessError e); cbn [snd];
      trace_invoked; repeat split; intros; lia. }
  apply extend_gcps_ret in E. subst cmd. rewrite <- app_assoc.
  fold (embed_command input_path output_dir gcps). fold c1.
  fold (warp_command output_dir). fold c2.
  fold (tile_command output_dir). fold c3.
  destruct (env c1) as [code1|msg1] eqn:E1.
  2:{ exists 1%nat. cbn [is_CalledProcessError snd]. trace_invoked.
      repeat split; intros; lia. }
  destruct (Z.eqb_spec code1 0) as [->|N1].
  2:{ exists 1%nat. cbn [is_CalledProcessError snd]. trace_invoked.
      repeat split; intros; lia. }
  destruct (env c2) as [code2|msg2] eqn:E2.
  2:{ exists 2%nat. cbn [is_CalledProcessError snd]. trace_invoked.
      repeat split; intros; (reflexivity || lia). }
  destruct (Z.eqb_spec code2 0) as [->|N2].
  2:{ exists 2%nat. cbn [is_CalledProcessError snd]. trace_invoked.
      repeat split; intros; (reflexivity || lia). }
  exists 3%nat.
  destruct (env c3) as [code3|msg3] eqn:E3;
    [destruct (Z.eqb_spec code3 0) as [->|N3]|];
    cbn [is_CalledProcessError snd]; trace_invoked;
    repeat split; intros; reflexivity.
Qed.

Lemma run_gdal_pipeline_embed_fails env input_path output_dir gcps s code :
  let c1 := embed_command input_path output_dir gcps in
  Forall well_formed gcps -> env c1 = Exited code -> code <> 0%Z ->
  run_gdal_pipeline env input_path output_dir gcps s =
  (Raise (CalledProcessError code c1),
   (((s ++ [CallRunGdalPipeline input_path output_dir gcps])
     ++ [Log INFO "Running gdal_translate: " (ArgCmd c1)])
    ++ [Invoke c1])
   ++ [Log ERROR "GDAL subprocess failed: "
         (ArgExn (CalledProcessError code c1))]).
Proof.
  intros c1 Hwf Henv Hcode. run_pipeline.
  rewrite extend_gcps_ok by assumption.
  rewrite <- app_assoc. fold (embed_command input_path output_dir gcps). fold c1.
  rewrite Henv. destruct (Z.eqb_spec code 0) as [|_]; [contradiction|].
  reflexivity.
Qed.

Lemma run_gdal_pipeline_enters env input_path output_dir gcps s :
  exists rest,
    snd (run_gdal_pipeline env input_path output_dir gcps s)
    = s ++ CallRunGdalPipeline input_path output_dir gcps :: rest.
Proof.
  run_pipeline.
  destruct (extend_gcps _ gcps) as [cmd|e].
  2:{ destruct (is_CalledProcessError e); eexists; cbn [snd];
      rewrite <- ?app_assoc; cbn [app]; reflexivity. }
  destruct (env _) as [code1|msg1].
  2:{ eexists. cbn [is_CalledProcessError snd]. rewrite <- !app_assoc.
      cbn [app]. reflexivity. }
  destruct (Z.eqb code1 0).
  2:{ eexists. cbn [is_CalledProcessError snd]. rewrite <- !app_assoc.
      cbn [app]. reflexivity. }
  destruct (env _) as [code2|msg2].
  2:{ eexists. cbn [is_CalledProcessError snd]. rewrite <- !app_assoc.
      cbn [app]. reflexivity. }
  destruct (Z.eqb code2 0).
  2:{ eexists. cbn [is_CalledProcessError snd]. rewrite <- !app_assoc.
      cbn [app]. reflexivity. }
  destruct (env _) as [code3|msg3]; [destruct (Z.eqb code3 0)|];
    eexists; cbn [is_CalledProcessError snd]; rewrite <- !app_assoc;
    cbn [app]; reflexivity.
Qed.

Lemma gcp_args_at gcps : forall i g tail,
  nth_error gcps i = Some g ->
  firstn 5 (skipn (5 * i) (flat_map gcp_args gcps ++ tail)) = gcp_args g.
Proof.
  induction gcps as [|g0 gcps IH]; intros i g tail H.
  - destruct i; discriminate.
  - destruct i as [|i].
    + injection H as <-. reflexivity.
    + cbn [nth_error] in H.
      replace (5 * S i)%nat with (S (S (S (S (S (5 * i)))))) by lia.
      cbn [flat_map gcp_args app skipn]. apply IH. assumption.
Qed.

(** C2. The embed command the pipeline invokes carries, for each GCP, the
    five arguments [-gcp pixel[0] pixel[1] geo[1] geo[0]]: the stored
    [(lat, lon)] pair goes out as [(lon, lat)]. *)
Theorem embed_command_gcp_arguments env input_path output_dir gcps s :
  Forall well_formed gcps ->
  (exists rest,
     invoked (snd (run_gdal_pipeline env input_path output_dir gcps s))
     = invoked s ++ embed_command input_path output_dir gcps :: rest) /\
  forall i px py r1 lat lon r2,
    nth_error gcps i = Some (mkGCP (px :: py :: r1) (lat :: lon :: r2)) ->
    firstn 5 (skipn (3 + 5 * i) (embed_command input_path output_dir gcps))
    = [Lit "-gcp"; StrOf px; StrOf py; StrOf lon; StrOf lat].
Proof.
  intros Hwf. split.
  - run_pipeline. rewrite extend_gcps_ok by assumption.
    rewrite <- app_assoc. fold (embed_command input_path output_dir gcps).
    destruct (env (embed_command _ _ _)) as [code1|msg1].
    2:{ eexists. cbn [is_CalledProcessError snd]. trace_invoked. reflexivity. }
    destruct (Z.eqb code1 0).
    2:{ eexists. cbn [is_CalledProcessError snd]. trace_invoked. reflexivity. }
    destruct (env (cmd_warp _ _)) as [code2|msg2].
    2:{ eexists. cbn [is_CalledProcessError snd]. trace_invoked. reflexivity. }
    destruct (Z.eqb code2 0).
    2:{ eexists. cbn [is_CalledProcessError snd]. trace_invoked. reflexivity. }
    destruct (env (cmd_tiles _ _)) as [code3|msg3]; [destruct (Z.eqb code3 0)|];
      eexists; cbn [is_CalledProcessError snd]; trace_invoked; reflexivity.
  - intros i px py r1 lat lon r2 H. unfold embed_command.
    cbn [app Nat.add skipn].
    rewrite (gcp_args_at gcps i _ _ H). reflexivity.
Qed.

Lemma embed_command_gcp_arguments_witness :
  firstn 5 (skipn 8 (embed_command IMAGE_PATH OUTPUT_DIR harness_gcps))
  = [Lit "-gcp"; StrOf 1000; StrOf 0; StrOf 18.2; StrOf 59.4].
Proof.
  refine (proj2 (embed_command_gcp_arguments
                   (fun _ => Exited 0) IMAGE_PATH OUTPUT_DIR harness_gcps [] _)
                1%nat 1000 0 [] 59.4 18.2 [] _).
  - repeat constructor; unfold two_coords; simpl; lia.
  - reflexivity.
Defined.

(** C3. When the embed command exits with a non-zero status the pipeline
    raises the [CalledProcessError] of that command and invokes nothing
    else; in every run the commands invoked are a prefix of embed, warp,
    tile, a stage being reached only after the one before it exited
    with 0. *)
Theorem pipeline_stops_at_failed_stage env input_path output_dir gcps s :
  let c1 := embed_command input_path output_dir gcps in
  let c2 := warp_command output_dir in
  let c3 := tile_command output_dir in
  let run := run_gdal_pipeline env input_path output_dir gcps s in
  (Forall well_formed gcps ->
   forall code, env c1 = Exited code -> code <> 0%Z ->
     fst run = Raise (CalledProcessError code c1) /\
     invoked (snd run) = invoked s ++ [c1]) /\
  exists k,
    invoked (snd run) = invoked s ++ firstn k [c1; c2; c3] /\
    ((2 <= k)%nat -> env c1 = Exited 0) /\
    ((3 <= k)%nat -> env c2 = Exited 0).
Proof.
  intros c1 c2 c3 run. split.
  - intros Hwf code Henv Hcode. unfold run.
    rewrite (run_gdal_pipeline_embed_fails env input_path output_dir gcps s code
               Hwf Henv Hcode).
    cbn [fst snd]. split; [reflexivity|]. trace_invoked. reflexivity.
  - apply run_gdal_pipeline_invocations.
Qed.

Lemma pipeline_stops_at_failed_stage_witness :
  fst (run_gdal_pipeline (fun _ => Exited 1) IMAGE_PATH OUTPUT_DIR
         harness_gcps [])
  = Raise (CalledProcessError 1
             (embed_command IMAGE_PATH OUTPUT_DIR harness_gcps)) /\
  invoked (snd (run_gdal_pipeline (fun _ => Exited 1) IMAGE_PATH OUTPUT_DIR
                  harness_gcps []))
  = [embed_command IMAGE_PATH OUTPUT_DIR harness_gcps].
Proof.
  refine (proj1 (pipeline_stops_at_failed_stage
                   (fun _ => Exited 1) IMAGE_PATH OUTPUT_DIR harness_gcps [])
                _ 1%Z _ _).
  - repeat constructor; unfold two_coords; simpl; lia.
  - reflexivity.
  - discriminate.
Defined.

(** ** verify_pipeline *)

Lemma solve_affine_returns pix gps s :
  solve_affine pix gps s
  = (Ret (solver_result pix gps), snd (solve_affine pix gps s)).
Proof.
  rewrite solve_affine_run. unfold solver_result.
  destruct (solve_affine_try pix gps); reflexivity.
Qed.

(** The handler on a request with its three fields present and non-empty:
    the solver runs, then the pipeline, and only the pipeline decides
    between 200 and 500. *)
Lemma verify_pipeline_run env ipath odir gs s :
  str_truthy ipath = true -> str_truthy odir = true ->
  gs <> [] ->
  let s1 := snd (solve_affine (map pixel gs) (map geo gs) s) in
  verify_pipeline env
    (mkVerifyRequest (Some ipath) (Some odir) (Some gs)) s
  = match run_gdal_pipeline env ipath odir gs s1 with
    | (Ret _, s2) =>
        (Ret (Success (solver_result (map pixel gs) (map geo gs)), 200%Z),
         s2)
    | (Raise e, s2) =>
        (Ret (Failed e, 500%Z),
         s2 ++ [Log ERROR "Verification failed: " (ArgExn e)])
    end.
Proof.
  intros Hi Ho Hg s1. unfold verify_pipeline.
  cbn [image_path output_dir gcps all forallb].
  rewrite Hi, Ho. destruct gs as [|g0 gs]; [contradiction|].
  cbn [list_truthy andb negb].
  unfold try_except, bind at 1.
  rewrite solve_affine_returns. fold s1.
  unfold bind, ret, logger, emit.
  destruct (run_gdal_pipeline env ipath odir (g0 :: gs) s1)
    as [[t|e] s2]; reflexivity.
Qed.

(** C8. A request lacking [image_path], [odir] or [gs] is answered
    400 and leaves the trace as it was: no call of [solve_affine] or
    [run_gdal_pipeline], no external command. *)
Theorem verify_pipeline_missing_fields env data s :
  image_path data = None \/ output_dir data = None \/ gcps data = None ->
  verify_pipeline env data s = (Ret (Text "Missing arguments", 400%Z), s).
Proof.
  intros H. unfold verify_pipeline.
  destruct (image_path data), (output_dir data), (gcps data);
    try reflexivity.
  destruct H as [H|[H|H]]; discriminate.
Qed.

Lemma verify_pipeline_missing_fields_witness :
  verify_pipeline (fun _ => Exited 0)
    (mkVerifyRequest (Some IMAGE_PATH) None (Some harness_gcps)) []
  = (Ret (Text "Missing arguments", 400%Z), []).
Proof.
  apply (verify_pipeline_missing_fields (fun _ => Exited 0)
           (mkVerifyRequest (Some IMAGE_PATH) None (Some harness_gcps)) []).
  right. left. reflexivity.
Defined.




(** C6. When [solve_affine] fails it returns [None] without raising, and
    the handler goes on to call [run_gdal_pipeline] with the same paths and
    GCPs; the answer is then 200 with a null matrix, or 500 because of the
    pipeline's own exception. *)
Theorem solver_failure_not_fatal env ipath odir gs s :
  str_truthy ipath = true -> str_truthy odir = true ->
  gs <> [] ->
  fst (solve_affine (map pixel gs) (map geo gs) s) = Ret None ->
  let data :=
    mkVerifyRequest (Some ipath) (Some odir) (Some gs) in
  exists s1 rest r,
    solve_affine (map pixel gs) (map geo gs) s = (Ret None, s1) /\
    verify_pipeline env data s
    = (Ret r, s1 ++ CallRunGdalPipeline ipath odir gs :: rest) /\
    (r = (Success None, 200%Z) \/
     exists e, r = (Failed e, 500%Z) /\
       fst (run_gdal_pipeline env ipath odir gs s1) = Raise e).
Proof.
  intros Hi Ho Hg Hfail data.
  set (s1 := snd (solve_affine (map pixel gs) (map geo gs) s)).
  assert (Hm : solver_result (map pixel gs) (map geo gs) = None).
  { rewrite solve_affine_returns in Hfail. cbn [fst] in Hfail.
    injection Hfail as ->. reflexivity. }
  destruct (run_gdal_pipeline_enters env ipath odir gs s1)
    as [rest Hrest].
  unfold data. rewrite verify_pipeline_run by assumption. fold s1.
  destruct (run_gdal_pipeline env ipath odir gs s1)
    as [[t|e] s2] eqn:Hrun; cbn [snd] in Hrest; subst s2.
  - exists s1, rest, (Success None, 200%Z). rewrite Hm. split; [|split].
    + rewrite solve_affine_returns, Hm. reflexivity.
    + reflexivity.
    + now left.
  - exists s1, (rest ++ [Log ERROR "Verification failed: " (ArgExn e)]),
      (Failed e, 500%Z).
    split; [|split].
    + rewrite solve_affine_returns, Hm. reflexivity.
    + rewrite <- app_assoc. reflexivity.
    + right. exists e. split; [reflexivity | rewrite Hrun; reflexivity].
Qed.

Lemma solver_failure_not_fatal_witness :
  exists s1 rest r,
    solve_affine [[0; 0]] [[59.4; 18]] [] = (Ret None, s1) /\
    verify_pipeline (fun _ => Exited 0)
      (mkVerifyRequest (Some IMAGE_PATH) (Some OUTPUT_DIR)
         (Some [mkGCP [0; 0] [59.4; 18]])) []
    = (Ret r,
       s1 ++ CallRunGdalPipeline IMAGE_PATH OUTPUT_DIR [mkGCP [0; 0] [59.4; 18]]
          :: rest).
Proof.
  destruct (solver_failure_not_fatal (fun _ => Exited 0) IMAGE_PATH OUTPUT_DIR
              [mkGCP [0; 0] [59.4; 18]] [])
    as (s1 & rest & r & Hsolve & Hrun & _).
  - reflexivity.
  - reflexivity.
  - discriminate.
  - vm_compute. reflexivity.
  - exists s1, rest, r. split; assumption.
Defined.

(** ** index *)

(** C9, as stated, fails: the empty object is valid JSON, and the handler
    answers it 400. *)
Lemma index_empty_object_is_400 :
  flask_dispatch (index DEFAULT_UPLOAD_BUCKET (Json (JObj []))) []
  = (Text "Bad Request: no JSON", 400%Z, []).
Proof. reflexivity. Qed.

(** C9, amended.  The trigger endpoint answers 400 when the body is not
    valid JSON and when it parses to a falsy document (null, false, 0, an
    empty string, array or object); it answers 200 ["OK"] to every non-empty
    JSON object that is not a storage-object event, or that carries a bucket
    and a name, the name being a string when the bucket is the upload
    bucket. *)
Theorem index_responses upload_bucket b s :
  (b = NotJson ->
   flask_dispatch (index upload_bucket b) s = (ErrorPage, 400%Z, s)) /\
  (forall v, b = Json v -> truthy v = false ->
   flask_dispatch (index upload_bucket b) s
   = (Text "Bad Request: no JSON", 400%Z, s)) /\
  (forall fields, b = Json (JObj fields) -> fields <> [] ->
   answered upload_bucket fields ->
   flask_dispatch (index upload_bucket b) s
   = (Text "OK", 200%Z,
      s ++ [Log INFO "Received event: " (ArgJson (JObj fields))])).
Proof.
  split; [|split].
  - intros ->. reflexivity.
  - intros v -> Hv.
    unfold flask_dispatch, index, bind, get_json, ret. rewrite Hv. reflexivity.
  - intros fields -> Hne Hans.
    unfold flask_dispatch, index, bind, get_json, ret, logger, emit, lift.
    cbn [truthy]. destruct fields as [|f fields]; [contradiction|].
    cbn [list_truthy negb dict_get dict_item].
    set (ev := f :: fields) in *.
    destruct Hans as [Hkind|(bucket & name & Hb & Hn & Hname)].
    + destruct (assoc "kind" ev) as [kind|] eqn:Ek.
      * rewrite (Hkind kind eq_refl). reflexivity.
      * reflexivity.
    + rewrite Hb, Hn.
      destruct (assoc "kind" ev) as [kind|];
        [destruct (eq_str kind "storage#object")|]; try reflexivity.
      destruct Hname as [Hname|[n ->]].
      * rewrite Hname. reflexivity.
      * destruct (eq_str bucket upload_bucket); reflexivity.
Qed.

Lemma index_responses_witness :
  flask_dispatch
    (index DEFAULT_UPLOAD_BUCKET
       (Json (JObj [("kind", JStr "storage#object");
                    ("bucket", JStr "antigravity-maps-upload");
                    ("name", JStr "map.jpg")]))) []
  = (Text "OK", 200%Z,
     [Log INFO "Received event: "
        (ArgJson (JObj [("kind", JStr "storage#object");
                        ("bucket", JStr "antigravity-maps-upload");
                        ("name", JStr "map.jpg")]))]).
Proof.
  refine (proj2 (proj2 (index_responses DEFAULT_UPLOAD_BUCKET _ []))
            _ eq_refl _ _).
  - discriminate.
  - right. exists (JStr "antigravity-maps-upload"), (JStr "map.jpg").
    repeat split; try reflexivity. right. exists "map.jpg". reflexivity.
Defined.

(** * Further properties *)

(** ** More on solve_affine *)

Lemma getitem_two_coords p x : getitem p 1 = Ret x -> two_coords p.
Proof.
  unfold getitem, two_coords.
  destruct (nth_error p 1) as [y|] eqn:E; [|discriminate]. intros _.
  assert (H : nth_error p 1 <> None) by congruence.
  apply nth_error_Some in H. lia.
Qed.

Lemma comprehension_forall {A B} (f : A -> outcome B) l r :
  comprehension f l = Ret r -> Forall (fun a => exists b, f a = Ret b) l.
Proof.
  revert r. induction l as [|a l IH]; intros r H; [constructor|].
  cbn in H. destruct (f a) as [b|e] eqn:Ea; cbn in H; [|discriminate].
  destruct (comprehension f l) as [bs|e]; cbn in H; [|discriminate].
  constructor; [eauto|]. eapply IH. reflexivity.
Qed.

(** The [try] block returns only on well-formed lists of equal length,
    three points or more. *)
Lemma solve_affine_try_ret_only_if pix gps d :
  solve_affine_try pix gps = Ret d ->
  (3 <= List.length pix)%nat /\ List.length gps = List.length pix /\
  Forall two_coords pix /\ Forall two_coords gps.
Proof.
  intros H. unfold solve_affine_try in H.
  destruct (_ || _) eqn:Hlen; [discriminate|].
  apply orb_false_elim in Hlen as [H1 H2]. apply Nat.ltb_ge in H1, H2.
  destruct (comprehension _ pix) as [P|] eqn:EP; cbn [obind] in H;
    [|discriminate].
  destruct (comprehension (fun p => getitem p 1) gps) as [TLon|] eqn:ELon;
    cbn [obind] in H; [|discriminate].
  destruct (comprehension (fun p => getitem p 0) gps) as [TLat|] eqn:ELat;
    cbn [obind] in H; [|discriminate].
  unfold lstsq at 1 in H.
  destruct (Nat.eqb _ _) eqn:Heq; cbn [obind] in H; [|discriminate].
  apply Nat.eqb_eq in Heq.
  pose proof (comprehension_length _ _ _ EP) as LP.
  pose proof (comprehension_length _ _ _ ELon) as LLon.
  apply comprehension_forall in EP, ELon.
  repeat split.
  - assumption.
  - unfold vec3 in *. congruence.
  - eapply Forall_impl; [|exact EP]. intros p [b Hb].
    destruct (getitem p 0) as [x|]; cbn [obind] in Hb; [|discriminate].
    destruct (getitem p 1) as [y|] eqn:Ey; cbn [obind] in Hb; [|discriminate].
    eapply getitem_two_coords; eassumption.
  - eapply Forall_impl; [|exact ELon]. intros p [b Hb].
    eapply getitem_two_coords; eassumption.
Qed.

(** X1. [solve_affine] returns a coefficient dict only when both lists have
    the same length, three points or more, and every point has the two
    coordinates the code reads. *)
Theorem solve_affine_returns_dict_only_if pix gps s d :
  fst (solve_affine pix gps s) = Ret (Some d) ->
  (3 <= List.length pix)%nat /\ List.length gps = List.length pix /\
  Forall two_coords pix /\ Forall two_coords gps.
Proof.
  rewrite solve_affine_run.
  destruct (solve_affine_try pix gps) as [d'|e] eqn:E; cbn [fst];
    [|discriminate].
  intros _. eapply solve_affine_try_ret_only_if. exact E.
Qed.

Lemma solve_affine_returns_dict_only_if_witness :
  (3 <= List.length (map pixel harness_gcps))%nat /\
  List.length (map geo harness_gcps) = List.length (map pixel harness_gcps).
Proof.
  destruct (solve_affine (map pixel harness_gcps) (map geo harness_gcps) [])
    as [[[d|]|e] s'] eqn:Hrun; try (vm_compute in Hrun; discriminate Hrun).
  destruct (solve_affine_returns_dict_only_if
              (map pixel harness_gcps) (map geo harness_gcps) [] d)
    as (H1 & H2 & _).
  - rewrite Hrun. reflexivity.
  - split; assumption.
Defined.

Lemma comprehension_map {A B C} (f : B -> outcome C) (h : A -> B) l :
  comprehension f (map h l) = comprehension (fun a => f (h a)) l.
Proof.
  induction l as [|a l IH]; [reflexivity|]. cbn. rewrite IH. reflexivity.
Qed.

Lemma comprehension_ext {A B} (f g : A -> outcome B) l :
  (forall a, f a = g a) -> comprehension f l = comprehension g l.
Proof.
  intros H. induction l as [|a l IH]; [reflexivity|].
  cbn. rewrite H, IH. reflexivity.
Qed.

Lemma getitem_firstn2 p i : (i < 2)%nat -> getitem (firstn 2 p) i = getitem p i.
Proof.
  intros Hi. unfold getitem. rewrite nth_error_firstn.
  destruct (Nat.ltb_spec i 2); [reflexivity|lia].
Qed.

Lemma solve_affine_try_firstn2 pix gps :
  solve_affine_try (map (firstn 2) pix) (map (firstn 2) gps)
  = solve_affine_try pix gps.
Proof.
  unfold solve_affine_try. rewrite !length_map, !comprehension_map.
  rewrite (comprehension_ext
             (fun a => (x <~ getitem (firstn 2 a) 0 ;;
                        y <~ getitem (firstn 2 a) 1 ;; Ret (x, y, 1))%out)
             (fun p => (x <~ getitem p 0 ;; y <~ getitem p 1 ;; Ret (x, y, 1))%out))
    by (intros p; rewrite !getitem_firstn2 by lia; reflexivity).
  rewrite (comprehension_ext (fun a => getitem (firstn 2 a) 1)
                             (fun p => getitem p 1))
    by (intros p; apply getitem_firstn2; lia).
  rewrite (comprehension_ext (fun a => getitem (firstn 2 a) 0)
                             (fun p => getitem p 0))
    by (intros p; apply getitem_firstn2; lia).
  reflexivity.
Qed.

(** X4. Only [p[0]] and [p[1]] of a point are read: lists that agree on
    the first two coordinates of every point give the same result. *)
Theorem solve_affine_reads_two_coordinates pix pix' gps gps' s :
  map (firstn 2) pix = map (firstn 2) pix' ->
  map (firstn 2) gps = map (firstn 2) gps' ->
  fst (solve_affine pix gps s) = fst (solve_affine pix' gps' s).
Proof.
  intros Hp Hg. rewrite !solve_affine_run.
  rewrite <- (solve_affine_try_firstn2 pix gps), Hp, Hg,
    solve_affine_try_firstn2.
  destruct (solve_affine_try pix' gps'); reflexivity.
Qed.

Lemma solve_affine_reads_two_coordinates_witness :
  fst (solve_affine [[0; 0; 7]; [1000; 0]; [0; 1000]]
                    [[59.4; 18; 35]; [59.4; 18.2]; [59.2; 18; 12]] [])
  = fst (solve_affine [[0; 0]; [1000; 0]; [0; 1000]]
                      [[59.4; 18]; [59.4; 18.2]; [59.2; 18]] []).
Proof.
  apply (solve_affine_reads_two_coordinates
           [[0; 0; 7]; [1000; 0]; [0; 1000]] [[0; 0]; [1000; 0]; [0; 1000]]
           [[59.4; 18; 35]; [59.4; 18.2]; [59.2; 18; 12]]
           [[59.4; 18]; [59.4; 18.2]; [59.2; 18]] []); reflexivity.
Defined.

Lemma getitem_short p i : (List.length p <= i)%nat -> getitem p i = Raise index_error.
Proof.
  intros H. unfold getitem. apply nth_error_None in H. rewrite H. reflexivity.
Qed.

Lemma comprehension_raises {A B} (f : A -> outcome B) (e0 : exn) l :
  (forall a, (exists b, f a = Ret b) \/ f a = Raise e0) ->
  Exists (fun a => f a = Raise e0) l -> comprehension f l = Raise e0.
Proof.
  intros Hf H. induction H as [a l Ha|a l _ IH]; cbn.
  - rewrite Ha. reflexivity.
  - destruct (Hf a) as [[b Hb]|Hr]; rewrite ?Hb, ?Hr; cbn [obind];
      [|reflexivity].
    rewrite IH. reflexivity.
Qed.

Lemma two_coords_dec p : {two_coords p} + {~ two_coords p}.
Proof. unfold two_coords. apply le_dec. Qed.

Lemma design_comprehension_raises pix :
  Exists (fun p => ~ two_coords p) pix ->
  comprehension
    (fun p => x <~ getitem p 0 ;; y <~ getitem p 1 ;; Ret (x, y, 1))%out pix
  = Raise index_error.
Proof.
  intros H. apply comprehension_raises.
  - intros p. destruct (two_coords_dec p) as [Hp|Hp]; unfold two_coords in Hp.
    + left. rewrite !getitem_ok by lia. cbn. eauto.
    + right. destruct p as [|x [|y p]]; cbn in Hp; try lia; reflexivity.
  - eapply Exists_impl; [|exact H]. intros p Hp. unfold two_coords in Hp.
    destruct p as [|x [|y p]]; cbn in Hp; try lia; reflexivity.
Qed.

Lemma target_comprehension_raises gps :
  Exists (fun p => ~ two_coords p) gps ->
  comprehension (fun p => getitem p 1) gps = Raise index_error.
Proof.
  intros H. apply comprehension_raises.
  - intros p. destruct (two_coords_dec p) as [Hp|Hp]; unfold two_coords in Hp.
    + left. rewrite getitem_ok by lia. eauto.
    + right. apply getitem_short. lia.
  - eapply Exists_impl; [|exact H]. intros p Hp. unfold two_coords in Hp.
    apply getitem_short. lia.
Qed.

Lemma solve_affine_try_malformed pix gps :
  (3 <= List.length pix)%nat -> (3 <= List.length gps)%nat ->
  Exists (fun p => ~ two_coords p) pix \/ Exists (fun p => ~ two_coords p) gps ->
  solve_affine_try pix gps = Raise index_error.
Proof.
  intros Hp Hg H. unfold solve_affine_try.
  destruct (_ || _) eqn:Hlt.
  { apply orb_true_iff in Hlt as [Hlt|Hlt]; apply Nat.ltb_lt in Hlt; lia. }
  destruct (Forall_Exists_dec two_coords two_coords_dec pix) as [Hwf|Hex].
  - destruct H as [H|H].
    + apply Exists_exists in H as (p & Hin & Hnp).
      rewrite Forall_forall in Hwf. exfalso. apply Hnp, Hwf, Hin.
    + rewrite design_comprehension by assumption. cbn [obind].
      rewrite target_comprehension_raises by assumption. reflexivity.
  - rewrite design_comprehension_raises by assumption. reflexivity.
Qed.

Lemma solve_affine_try_mismatch pix gps :
  (3 <= List.length pix)%nat -> (3 <= List.length gps)%nat ->
  Forall two_coords pix -> Forall two_coords gps ->
  List.length pix <> List.length gps ->
  solve_affine_try pix gps = Raise (LinAlgError "Incompatible dimensions").
Proof.
  intros Hp Hg Hwp Hwg Hne. unfold solve_affine_try.
  destruct (_ || _) eqn:Hlt.
  { apply orb_true_iff in Hlt as [Hlt|Hlt]; apply Nat.ltb_lt in Hlt; lia. }
  rewrite design_comprehension by assumption. cbn [obind].
  rewrite !target_comprehension by (assumption || lia). cbn [obind].
  unfold lstsq at 1, design. rewrite !length_map.
  destruct (Nat.eqb _ _) eqn:E; [apply Nat.eqb_eq in E; contradiction|].
  reflexivity.
Qed.

(** X5. Each failure leaves one ERROR record: the ValueError of the length
    check and the IndexError of a short point under "Error solving affine",
    lists of different lengths under "Linear Algebra Error", by numpy's
    "Incompatible dimensions". *)
Theorem solve_affine_failure_record pix gps s :
  let failed prefix e :=
    solve_affine pix gps s
    = (Ret None,
       (s ++ [CallSolveAffine pix gps]) ++ [Log ERROR prefix (ArgExn e)]) in
  ((List.length pix < 3)%nat \/ (List.length gps < 3)%nat ->
   failed "Error solving affine: " (ValueError "At least 3 points required")) /\
  ((3 <= List.length pix)%nat -> (3 <= List.length gps)%nat ->
   Exists (fun p => ~ two_coords p) pix \/ Exists (fun p => ~ two_coords p) gps ->
   failed "Error solving affine: " (IndexError "list index out of range")) /\
  ((3 <= List.length pix)%nat -> (3 <= List.length gps)%nat ->
   Forall two_coords pix -> Forall two_coords gps ->
   List.length pix <> List.length gps ->
   failed "Linear Algebra Error: " (LinAlgError "Incompatible dimensions")).
Proof.
  intros failed. unfold failed. rewrite solve_affine_run. repeat split.
  - intros H. rewrite solve_affine_try_too_few by assumption. reflexivity.
  - intros Hp Hg H. rewrite solve_affine_try_malformed by assumption.
    reflexivity.
  - intros Hp Hg Hwp Hwg Hne. rewrite solve_affine_try_mismatch by assumption.
    reflexivity.
Qed.

Lemma solve_affine_failure_record_witness :
  solve_affine [[0; 0]; [1000; 0]; [0; 1000]]
               [[59.4; 18]; [59.4; 18.2]; [59.2; 18]; [59.3; 18.3]] []
  = (Ret None,
     [CallSolveAffine [[0; 0]; [1000; 0]; [0; 1000]]
                      [[59.4; 18]; [59.4; 18.2]; [59.2; 18]; [59.3; 18.3]]]
     ++ [Log ERROR "Linear Algebra Error: "
           (ArgExn (LinAlgError "Incompatible dimensions"))]).
Proof.
  refine (proj2 (proj2 (solve_affine_failure_record
                   [[0; 0]; [1000; 0]; [0; 1000]]
                   [[59.4; 18]; [59.4; 18.2]; [59.2; 18]; [59.3; 18.3]] []))
            _ _ _ _ _).
  - simpl. lia.
  - simpl. lia.
  - repeat constructor; unfold two_coords; simpl; lia.
  - repeat constructor; unfold two_coords; simpl; lia.
  - simpl. lia.
Defined.

(** ** More on run_gdal_pipeline *)

Lemma well_formed_dec g : {well_formed g} + {~ well_formed g}.
Proof.
  unfold well_formed.
  destruct (two_coords_dec (pixel g)), (two_coords_dec (geo g)); tauto.
Qed.

Lemma extend_gcps_raises gcps : forall cmd,
  Exists (fun g => ~ well_formed g) gcps ->
  extend_gcps cmd gcps = Raise index_error.
Proof.
  induction gcps as [|g gcps IH]; intros cmd H; [inversion H|].
  cbn [extend_gcps].
  destruct (well_formed_dec g) as [[Hp Hg]|Hn].
  - unfold two_coords in Hp, Hg. rewrite !getitem_ok by lia. cbn [obind].
    apply IH. inversion H as [? ? Hh|]; subst; [|assumption].
    exfalso. apply Hh. split; assumption.
  - destruct (two_coords_dec (pixel g)) as [Hp|Hp].
    + destruct (two_coords_dec (geo g)) as [Hg|Hg];
        [exfalso; apply Hn; split; assumption|].
      unfold two_coords in Hp, Hg. rewrite !getitem_ok by lia. cbn [obind].
      rewrite (getitem_short (geo g) 1) by lia. reflexivity.
    + unfold two_coords in Hp.
      destruct (pixel g) as [|x [|y p]]; cbn in Hp; try lia; reflexivity.
Qed.

(** A run on well-formed GCPs, stage by stage. *)
Lemma run_gdal_pipeline_stages env input_path output_dir gcps s :
  Forall well_formed gcps ->
  let stage label cmd (s' : trace) (next : trace -> outcome string * trace) :=
    let s'' := (s' ++ [Log INFO label (ArgCmd cmd)]) ++ [Invoke cmd] in
    match env cmd with
    | Exited code =>
        if Z.eqb code 0 then next s''
        else (Raise (CalledProcessError code cmd),
              s'' ++ [Log ERROR "GDAL subprocess failed: "
                        (ArgExn (CalledProcessError code cmd))])
    | NotStarted msg => (Raise (OSError msg), s'')
    end in
  run_gdal_pipeline env input_path output_dir gcps s =
  stage "Running gdal_translate: "
    (embed_command input_path output_dir gcps)
    (s ++ [CallRunGdalPipeline input_path output_dir gcps])
    (fun s1 =>
       stage "Running gdalwarp: " (warp_command output_dir) s1
         (fun s2 =>
            stage "Running gdal2tiles: " (tile_command output_dir) s2
              (fun s3 => (Ret (path_join output_dir "tiles"), s3)))).
Proof.
  intros Hwf stage. unfold stage. run_pipeline.
  rewrite extend_gcps_ok by assumption.
  rewrite <- app_assoc. fold (embed_command input_path output_dir gcps).
  fold (warp_command output_dir). fold (tile_command output_dir).
  destruct (env (embed_command _ _ _)) as [code1|msg1]; [|reflexivity].
  destruct (Z.eqb code1 0); [|reflexivity].
  destruct (env (warp_command _)) as [code2|msg2]; [|reflexivity].
  destruct (Z.eqb code2 0); [|reflexivity].
  destruct (env (tile_command _)) as [code3|msg3]; [|reflexivity].
  destruct (Z.eqb code3 0); reflexivity.
Qed.

Lemma run_gdal_pipeline_malformed env input_path output_dir gcps s :
  Exists (fun g => ~ well_formed g) gcps ->
  run_gdal_pipeline env input_path output_dir gcps s
  = (Raise index_error, s ++ [CallRunGdalPipeline input_path output_dir gcps]).
Proof.
  intros H. run_pipeline. rewrite extend_gcps_raises by assumption.
  reflexivity.
Qed.

Lemma run_gdal_pipeline_ret_iff env input_path output_dir gcps s t :
  fst (run_gdal_pipeline env input_path output_dir gcps s) = Ret t <->
  Forall well_formed gcps /\
  env (embed_command input_path output_dir gcps) = Exited 0 /\
  env (warp_command output_dir) = Exited 0 /\
  env (tile_command output_dir) = Exited 0 /\
  t = path_join output_dir "tiles".
Proof.
  destruct (Forall_Exists_dec well_formed well_formed_dec gcps) as [Hwf|Hex].
  2:{ rewrite run_gdal_pipeline_malformed by assumption. cbn [fst]. split.
      - discriminate.
      - intros (Hwf & _). apply Exists_exists in Hex as (g & Hin & Hn).
        rewrite Forall_forall in Hwf. exfalso. apply Hn, Hwf, Hin. }
  rewrite run_gdal_pipeline_stages by assumption. cbv zeta.
  destruct (env (embed_command _ _ _)) as [code1|msg1];
    [destruct (Z.eqb_spec code1 0) as [->|N1]|].
  2,3: cbn [fst]; split; [discriminate|]; intros (_ & H & _); congruence.
  destruct (env (warp_command _)) as [code2|msg2];
    [destruct (Z.eqb_spec code2 0) as [->|N2]|].
  2,3: cbn [fst]; split; [discriminate|]; intros (_ & _ & H & _); congruence.
  destruct (env (tile_command _)) as [code3|msg3];
    [destruct (Z.eqb_spec code3 0) as [->|N3]|].
  2,3: cbn [fst]; split; [discriminate|]; intros (_ & _ & _ & H & _); congruence.
  cbn [fst]. split.
  - intros H. injection H as <-. repeat split; assumption.
  - intros (_ & _ & _ & _ & ->). reflexivity.
Qed.

(** X7. The pipeline returns exactly when every GCP is well formed and the
    three commands exit with 0; what it returns is [output_dir/tiles]. *)
Theorem run_gdal_pipeline_returns_iff env input_path output_dir gcps s t :
  let c1 := embed_command input_path output_dir gcps in
  let c2 := warp_command output_dir in
  let c3 := tile_command output_dir in
  let run := run_gdal_pipeline env input_path output_dir gcps s in
  (fst run = Ret t <->
   Forall well_formed gcps /\
   env c1 = Exited 0 /\ env c2 = Exited 0 /\ env c3 = Exited 0 /\
   t = path_join output_dir "tiles") /\
  (fst run = Ret t -> invoked (snd run) = invoked s ++ [c1; c2; c3]).
Proof.
  intros c1 c2 c3 run. subst c1 c2 c3 run. split.
  - apply run_gdal_pipeline_ret_iff.
  - intros H. apply run_gdal_pipeline_ret_iff in H as (Hwf & E1 & E2 & E3 & _).
    rewrite run_gdal_pipeline_stages by assumption. cbv zeta.
    rewrite E1, E2, E3. cbn [Z.eqb snd]. trace_invoked. reflexivity.
Qed.

(** X8. After a successful embed stage, a non-zero exit of the warp command
    raises the [CalledProcessError] of that command with embed and warp
    invoked; after a successful warp, a non-zero exit of the tile command
    raises that command's error with all three invoked. *)
Theorem later_stage_failure_identifies_stage
    env input_path output_dir gcps s code :
  Forall well_formed gcps -> code <> 0%Z ->
  env (embed_command input_path output_dir gcps) = Exited 0 ->
  let c1 := embed_command input_path output_dir gcps in
  let c2 := warp_command output_dir in
  let c3 := tile_command output_dir in
  let run := run_gdal_pipeline env input_path output_dir gcps s in
  (env c2 = Exited code ->
   fst run = Raise (CalledProcessError code c2) /\
   invoked (snd run) = invoked s ++ [c1; c2]) /\
  (env c2 = Exited 0 -> env c3 = Exited code ->
   fst run = Raise (CalledProcessError code c3) /\
   invoked (snd run) = invoked s ++ [c1; c2; c3]).
Proof.
  intros Hwf Hcode H1 c1 c2 c3 run. subst c1 c2 c3 run.
  rewrite run_gdal_pipeline_stages by assumption. cbv zeta.
  rewrite H1. cbn [Z.eqb]. split.
  - intros H2. rewrite H2.
    destruct (Z.eqb_spec code 0); [contradiction|].
    cbn [fst snd]. split; [reflexivity|]. trace_invoked. reflexivity.
  - intros H2 H3. rewrite H2, H3. cbn [Z.eqb].
    destruct (Z.eqb_spec code 0); [contradiction|].
    cbn [fst snd]. split; [reflexivity|]. trace_invoked. reflexivity.
Qed.

(** X9. A GCP whose pixel or geo point has fewer than two coordinates makes
    the pipeline raise IndexError while it builds the embed command: no
    command is invoked and nothing is logged. *)
Theorem malformed_gcp_stops_before_any_command
    env input_path output_dir gcps s :
  Exists (fun g => ~ well_formed g) gcps ->
  let run := run_gdal_pipeline env input_path output_dir gcps s in
  fst run = Raise (IndexError "list index out of range") /\
  snd run = s ++ [CallRunGdalPipeline input_path output_dir gcps] /\
  invoked (snd run) = invoked s.
Proof.
  intros H run. subst run.
  rewrite run_gdal_pipeline_malformed by assumption. cbn [fst snd].
  split; [reflexivity|]. split; [reflexivity|]. trace_invoked. reflexivity.
Qed.

Lemma later_stage_failure_identifies_stage_witness :
  fst (run_gdal_pipeline
         (fun cmd => match cmd with
                     | Lit "gdal_translate" :: _ => Exited 0
                     | _ => Exited 2
                     end)
         IMAGE_PATH OUTPUT_DIR harness_gcps [])
  = Raise (CalledProcessError 2 (warp_command OUTPUT_DIR)).
Proof.
  refine (proj1 (proj1 (later_stage_failure_identifies_stage
                   (fun cmd => match cmd with
                               | Lit "gdal_translate" :: _ => Exited 0
                               | _ => Exited 2
                               end)
                   IMAGE_PATH OUTPUT_DIR harness_gcps [] 2%Z _ _ _) _)).
  - repeat constructor; unfold two_coords; simpl; lia.
  - discriminate.
  - reflexivity.
  - reflexivity.
Defined.

Lemma malformed_gcp_stops_before_any_command_witness :
  invoked (snd (run_gdal_pipeline (fun _ => Exited 0) IMAGE_PATH OUTPUT_DIR
                  [mkGCP [0; 0] [59.4; 18]; mkGCP [1000] [59.4; 18.2]] []))
  = [].
Proof.
  refine (proj2 (proj2 (malformed_gcp_stops_before_any_command
                          (fun _ => Exited 0) IMAGE_PATH OUTPUT_DIR
                          [mkGCP [0; 0] [59.4; 18]; mkGCP [1000] [59.4; 18.2]]
                          [] _))).
  apply Exists_cons_tl, Exists_cons_hd. unfold well_formed, two_coords.
  simpl. lia.
Defined.

Ltac stage_cases env :=
  repeat match goal with
         | |- context [env ?c] =>
             let code := fresh "code" in
             let msg := fresh "msg" in
             destruct (env c) as [code|msg];
             [destruct (Z.eqb code 0)|]
         end.

(** X10. The pipeline writes an ERROR record exactly when it raises a
    [CalledProcessError], and the record carries that error; an IndexError
    or a command that could not be started passes through unlogged. *)
Theorem pipeline_logs_only_nonzero_exits env input_path output_dir gcps s :
  let run := run_gdal_pipeline env input_path output_dir gcps s in
  exists new,
    snd run = s ++ new /\
    forall prefix arg,
      In (Log ERROR prefix arg) new <->
      exists code cmd,
        fst run = Raise (CalledProcessError code cmd) /\
        prefix = "GDAL subprocess failed: " /\
        arg = ArgExn (CalledProcessError code cmd).
Proof.
  intros run. unfold run.
  destruct (Forall_Exists_dec well_formed well_formed_dec gcps) as [Hwf|Hex].
  2:{ rewrite run_gdal_pipeline_malformed by assumption. cbn [fst snd].
      eexists. split; [reflexivity|]. intros prefix arg. split.
      - cbn. intros [H|[]]. discriminate.
      - intros (code & cmd & H & _). discriminate. }
  rewrite run_gdal_pipeline_stages by assumption. cbv zeta.
  stage_cases env; cbn [fst snd]; rewrite <- ?app_assoc; cbn [app];
    (eexists; split; [reflexivity|]); intros prefix arg; split;
    try (intros (c & cmd & H & _); discriminate H);
    try (cbn [In]; intros H;
         repeat (destruct H as [H|H]; try discriminate H); try contradiction;
         injection H as <- <-; eauto);
    try (intros (c & cmd & H & -> & ->); injection H as <- <-;
         cbn [In]; tauto).
Qed.

(** X11. Every command the pipeline invokes is printed to the log, in an
    INFO record, right before it is run. *)
Theorem pipeline_announces_every_command env input_path output_dir gcps s :
  exists new,
    snd (run_gdal_pipeline env input_path output_dir gcps s) = s ++ new /\
    announced new.
Proof.
  destruct (Forall_Exists_dec well_formed well_formed_dec gcps) as [Hwf|Hex].
  2:{ rewrite run_gdal_pipeline_malformed by assumption. cbn [snd].
      eexists. split; [reflexivity|].
      apply announced_other; [intros ? ?; discriminate|apply announced_nil]. }
  rewrite run_gdal_pipeline_stages by assumption. cbv zeta.
  stage_cases env; cbn [fst snd]; rewrite <- ?app_assoc; cbn [app];
    (eexists; split; [reflexivity|]);
    repeat (apply announced_run
            || (apply announced_other; [intros ? ?; discriminate|])
            || apply announced_nil).
Qed.

(** X12. In a run that returns, each stage reads what the stage before it
    wrote: embed ends with [input_path vrt], warp with [vrt warped], tile
    with [warped tiles_dir], the last being the path returned. *)
Theorem pipeline_artifacts_chain env input_path output_dir gcps s tiles_dir :
  fst (run_gdal_pipeline env input_path output_dir gcps s) = Ret tiles_dir ->
  exists vrt_path warped_tif args1 args2 args3,
    invoked (snd (run_gdal_pipeline env input_path output_dir gcps s))
    = invoked s ++
      [args1 ++ [Lit input_path; Lit vrt_path];
       args2 ++ [Lit vrt_path; Lit warped_tif];
       args3 ++ [Lit warped_tif; Lit tiles_dir]].
Proof.
  intros H. pose proof H as H'.
  apply run_gdal_pipeline_ret_iff in H' as (Hwf & E1 & E2 & E3 & ->).
  rewrite run_gdal_pipeline_stages by assumption. cbv zeta.
  rewrite E1, E2, E3. cbn [Z.eqb snd]. trace_invoked.
  exists (path_join output_dir "temp.vrt"), (path_join output_dir "warped.tif").
  eexists (_ ++ _), (firstn 10 (warp_command output_dir)),
    (firstn 5 (tile_command output_dir)).
  unfold embed_command. rewrite <- app_assoc. reflexivity.
Qed.

Lemma pipeline_artifacts_chain_witness :
  exists vrt_path warped_tif args1 args2 args3,
    invoked (snd (run_gdal_pipeline (fun _ => Exited 0) IMAGE_PATH OUTPUT_DIR
                    harness_gcps []))
    = [args1 ++ [Lit IMAGE_PATH; Lit vrt_path];
       args2 ++ [Lit vrt_path; Lit warped_tif];
       args3 ++ [Lit warped_tif; Lit "/tmp/output/tiles"]].
Proof.
  apply (pipeline_artifacts_chain (fun _ => Exited 0) IMAGE_PATH OUTPUT_DIR
           harness_gcps [] "/tmp/output/tiles").
  reflexivity.
Defined.

(** ** More on verify_pipeline *)

Lemma str_truthy_iff s : str_truthy s = true <-> s <> "".
Proof.
  unfold str_truthy. destruct (String.eqb_spec s ""); cbn; split;
    congruence.
Qed.


(** X14. A field that is present but empty (an empty path, an empty GCP
    list) is treated like a missing one: 400, and neither the solver nor the
    pipeline is called. *)
Theorem verify_pipeline_empty_fields env data s :
  image_path data = Some "" \/ output_dir data = Some "" \/
  gcps data = Some [] ->
  verify_pipeline env data s = (Ret (Text "Missing arguments", 400%Z), s).
Proof.
  intros H. unfold verify_pipeline.
  destruct (image_path data) as [ipath|], (output_dir data) as [odir|],
    (gcps data) as [gs|]; try reflexivity.
  cbn [all forallb].
  destruct H as [H|[H|H]]; injection H as ->; cbn;
    try reflexivity.
  - destruct (str_truthy ipath); reflexivity.
  - destruct (str_truthy ipath), (str_truthy odir); reflexivity.
Qed.

Lemma verify_pipeline_empty_fields_witness :
  verify_pipeline (fun _ => Exited 0)
    (mkVerifyRequest (Some IMAGE_PATH) (Some OUTPUT_DIR) (Some [])) []
  = (Ret (Text "Missing arguments", 400%Z), []).
Proof.
  apply (verify_pipeline_empty_fields (fun _ => Exited 0)
           (mkVerifyRequest (Some IMAGE_PATH) (Some OUTPUT_DIR) (Some [])) []).
  right. right. reflexivity.
Defined.

(** When the handler answers 200, and with which matrix. *)
Lemma verify_pipeline_200_iff env data s b s' :
  verify_pipeline env data s = (Ret (b, 200%Z), s') <->
  exists ipath odir gs,
    data = mkVerifyRequest (Some ipath) (Some odir) (Some gs) /\
    ipath <> "" /\ odir <> "" /\ gs <> [] /\
    (exists t,
        run_gdal_pipeline env ipath odir gs
          (snd (solve_affine (map pixel gs) (map geo gs) s)) = (Ret t, s')) /\
    b = Success (solver_result (map pixel gs) (map geo gs)).
Proof.
  split.
  - destruct data as [[ipath|] [odir|] [gs|]]; try discriminate.
    destruct (str_truthy ipath) eqn:Hi.
    2:{ unfold verify_pipeline; cbn [image_path output_dir gcps all forallb].
        rewrite Hi. discriminate. }
    destruct (str_truthy odir) eqn:Ho.
    2:{ unfold verify_pipeline; cbn [image_path output_dir gcps all forallb].
        rewrite Hi, Ho. discriminate. }
    destruct gs as [|g gs].
    { unfold verify_pipeline; cbn [image_path output_dir gcps all forallb].
      rewrite Hi, Ho. discriminate. }
    rewrite verify_pipeline_run by (assumption || discriminate).
    destruct (run_gdal_pipeline _ _ _ _ _) as [[t|e] s2] eqn:Hrun;
      [|discriminate].
    intros H. injection H as <- <-.
    exists ipath, odir, (g :: gs).
    apply str_truthy_iff in Hi, Ho.
    repeat split; try assumption; try discriminate. eauto.
  - intros (ipath & odir & gs & -> & Hi & Ho & Hg & [t Hrun] & ->).
    apply str_truthy_iff in Hi, Ho.
    rewrite verify_pipeline_run by assumption. rewrite Hrun. reflexivity.
Qed.


(** X16. In a 200 answer to a request of fewer than three GCPs the
    [affine_matrix] is null. *)
Theorem affine_matrix_null_when_too_few env data s m s' gs :
  verify_pipeline env data s = (Ret (Success m, 200%Z), s') ->
  gcps data = Some gs -> (List.length gs < 3)%nat ->
  m = None.
Proof.
  intros H Hgs Hlt. apply verify_pipeline_200_iff in H
    as (ipath & odir & gs' & -> & Hi & Ho & Hg & _ & Hm).
  cbn [gcps] in Hgs. injection Hgs as ->. injection Hm as ->.
  unfold solver_result.
  rewrite solve_affine_try_too_few by (left; rewrite length_map; exact Hlt).
  reflexivity.
Qed.

Lemma affine_matrix_null_when_too_few_witness :
  fst (verify_pipeline (fun _ => Exited 0)
         (mkVerifyRequest (Some IMAGE_PATH) (Some OUTPUT_DIR)
            (Some [mkGCP [0; 0] [59.4; 18]])) [])
  = Ret (Success None, 200%Z).
Proof.
  destruct (verify_pipeline (fun _ => Exited 0)
              (mkVerifyRequest (Some IMAGE_PATH) (Some OUTPUT_DIR)
                 (Some [mkGCP [0; 0] [59.4; 18]])) [])
    as [[[[t|e|m|] code]|e] s'] eqn:Hrun;
    try (vm_compute in Hrun; discriminate Hrun).
  assert (Hcode : code = 200%Z) by (vm_compute in Hrun; congruence).
  subst code. cbn [fst].
  rewrite (affine_matrix_null_when_too_few (fun _ => Exited 0) _ [] m s'
             [mkGCP [0; 0] [59.4; 18]] Hrun eq_refl).
  - reflexivity.
  - simpl. lia.
Defined.

(** X19. A request whose GCP list holds a point with fewer than two
    coordinates is answered 500 with the IndexError, and no command is
    run. *)
Theorem verify_pipeline_malformed_gcp env ipath odir gs s :
  ipath <> "" -> odir <> "" ->
  Exists (fun g => ~ well_formed g) gs ->
  let run :=
    verify_pipeline env
      (mkVerifyRequest (Some ipath) (Some odir) (Some gs)) s in
  fst run = Ret (Failed (IndexError "list index out of range"), 500%Z) /\
  invoked (snd run) = invoked s.
Proof.
  intros Hi Ho Hex run. subst run.
  apply str_truthy_iff in Hi, Ho.
  assert (Hg : gs <> []) by (intros ->; inversion Hex).
  rewrite verify_pipeline_run by assumption.
  rewrite run_gdal_pipeline_malformed by assumption.
  cbn [fst snd]. split; [reflexivity|].
  rewrite solve_affine_run.
  destruct (solve_affine_try _ _); cbn [snd]; trace_invoked; reflexivity.
Qed.

Lemma verify_pipeline_malformed_gcp_witness :
  fst (verify_pipeline (fun _ => Exited 0)
         (mkVerifyRequest (Some IMAGE_PATH) (Some OUTPUT_DIR)
            (Some [mkGCP [0; 0] [59.4]])) [])
  = Ret (Failed (IndexError "list index out of range"), 500%Z).
Proof.
  refine (proj1 (verify_pipeline_malformed_gcp (fun _ => Exited 0)
                   IMAGE_PATH OUTPUT_DIR [mkGCP [0; 0] [59.4]] [] _ _ _)).
  - discriminate.
  - discriminate.
  - apply Exists_cons_hd. unfold well_formed, two_coords. simpl. lia.
Defined.

(** ** More on index *)

Lemma index_object upload_bucket fields s :
  fields <> [] ->
  let r := flask_dispatch (index upload_bucket (Json (JObj fields))) s in
  snd r = s ++ [Log INFO "Received event: " (ArgJson (JObj fields))] /\
  ((fst r = (Text "OK", 200%Z) /\ answered upload_bucket fields) \/
   (fst r = (ErrorPage, 500%Z) /\ ~ answered upload_bucket fields)).
Proof.
  intros Hne r. subst r.
  unfold flask_dispatch, index, bind, get_json, ret, logger, emit, lift.
  cbn [truthy]. destruct fields as [|f fields]; [contradiction|].
  cbn [list_truthy negb dict_get dict_item].
  set (ev := f :: fields) in *. unfold answered.
  destruct (assoc "kind" ev) as [kind|] eqn:Ek.
  2:{ cbn. split; [reflexivity|]. left. split; [reflexivity|].
      left. intros k Hk. discriminate. }
  destruct (eq_str kind "storage#object") eqn:Es.
  2:{ cbn. split; [reflexivity|]. left. split; [reflexivity|].
      left. intros k Hk. injection Hk as <-. exact Es. }
  assert (Hkind : ~ (forall k, Some kind = Some k ->
                               eq_str k "storage#object" = false)).
  { intros H. specialize (H kind eq_refl). congruence. }
  destruct (assoc "bucket" ev) as [bucket|] eqn:Eb.
  2:{ cbn. split; [reflexivity|]. right. split; [reflexivity|].
      intros [H|(b & n & H & _)]; [contradiction|discriminate]. }
  destruct (assoc "name" ev) as [name|] eqn:En.
  2:{ cbn. split; [reflexivity|]. right. split; [reflexivity|].
      intros [H|(b & n & _ & H & _)]; [contradiction|discriminate]. }
  destruct (eq_str bucket upload_bucket) eqn:Eu.
  2:{ cbn. split; [reflexivity|]. left. split; [reflexivity|].
      right. exists bucket, name. repeat split. now left. }
  destruct name as [|bb|x|n|items|flds]; cbn; (split; [reflexivity|]).
  4:{ left. split; [reflexivity|]. right. exists bucket, (JStr n).
      repeat split. right. eauto. }
  all: right; split; [reflexivity|];
    intros [H|(b' & n' & Hb & Hn & [Hu|[n'' Hs]])];
    [contradiction
    |injection Hb as <-; congruence
    |injection Hn as <-; discriminate].
Qed.

(** X17. The status of the trigger endpoint, case by case: 415 exactly for
    a Content-Type that is not JSON; 400 exactly for a JSON body that does
    not parse or parses to a falsy document; 200 exactly for a non-empty
    object that is not a storage-object event or has the keys the handler
    reads; 500 for the rest. *)
Theorem index_status_exact upload_bucket b s :
  let code := status (fst (flask_dispatch (index upload_bucket b) s)) in
  (code = 415%Z <-> b = NotJsonMimetype) /\
  (code = 400%Z <-> b = NotJson \/ exists v, b = Json v /\ truthy v = false) /\
  (code = 200%Z <->
   exists fields, b = Json (JObj fields) /\ fields <> [] /\
                  answered upload_bucket fields) /\
  (code = 200 \/ code = 400 \/ code = 415 \/ code = 500)%Z.
Proof.
  intros code. subst code. destruct b as [|v|].
  { cbn. repeat split; try tauto; try discriminate.
    intros (f & H & _). discriminate. }
  2:{ cbn. repeat split; try tauto; try discriminate.
      - intros [H|(v & H & _)]; discriminate.
      - intros (f & H & _). discriminate. }
  destruct (truthy v) eqn:Hv.
  2:{ unfold flask_dispatch, index, bind, get_json, ret. rewrite Hv. cbn.
      repeat split; try tauto; try discriminate.
      - intros _. right. eauto.
      - intros (f & H & Hne & _). injection H as ->.
        destruct f; [contradiction|discriminate]. }
  assert (N400 : ~ (Json v = NotJson \/
                    exists v', Json v = Json v' /\ truthy v' = false)).
  { intros [H|(v' & H & Hf)]; [discriminate|]. injection H as <-. congruence. }
  destruct v as [|bb|x|str|items|fields].
  1-5: unfold flask_dispatch, index, bind, get_json, ret, logger, emit, lift;
    rewrite Hv; cbn;
    repeat split; try tauto; try discriminate;
    intros (f & H & _); discriminate.
  assert (Hne : fields <> []) by (intros ->; discriminate).
  destruct (index_object upload_bucket fields s Hne) as (_ & [[Hr Ha]|[Hr Hn]]);
    rewrite Hr; cbn [status snd]; repeat split; try tauto; try discriminate.
  - intros _. eauto.
  - intros (f & H & _ & Ha). injection H as <-. contradiction.
Qed.

(** X18. The trigger handler does nothing with an event besides logging it:
    its trace grows by at most the one INFO record, no command, no solver,
    no pipeline. *)
Theorem index_only_logs upload_bucket b s :
  snd (index upload_bucket b s) = s \/
  exists v, b = Json v /\ truthy v = true /\
    snd (index upload_bucket b s)
    = s ++ [Log INFO "Received event: " (ArgJson v)].
Proof.
  destruct b as [|v|]; [left; reflexivity| |left; reflexivity].
  unfold index, bind, get_json, ret, logger, emit, lift.
  destruct (truthy v) eqn:Hv; cbn [negb]; [|left; reflexivity].
  right. exists v. split; [reflexivity|]. split; [exact Hv|].
  destruct (dict_get v "kind") as [kind|e]; [|reflexivity].
  destruct (eq_str kind "storage#object"); [|reflexivity].
  destruct (dict_item v "bucket") as [bucket|e]; [|reflexivity].
  destruct (dict_item v "name") as [name|e]; [|reflexivity].
  destruct (eq_str bucket upload_bucket); [|reflexivity].
  destruct (json_endswith name ".json"); reflexivity.
Qed.
